(** * ko, package build: the build context (pkg/build/context.go)

    A shallow embedding of [newBuildContext], [getGoroot] and the three
    methods of [goBuildContext] ([importPackage], [moduleInfo],
    [qualifyLocalImport]), followed by the properties of the module graph,
    of GOROOT reconciliation and of local import qualification.

    Conventions of the embedding
    - Go strings are [string]; a Go [map[string]*modInfo] is a
      [gmap string ptr]; a [*modInfo] is an address into the heap of the
      process, [nil] is [None].
    - A Go [error] value is [option error]: [None] is the nil error.
    - Process-wide mutable state (the package variable [go/build.Default],
      the standard logger's output, the heap of escaped [modInfo] variables)
      is threaded through a small state monad [M].
    - What lives outside the repository (os/exec, strings.TrimSpace,
      encoding/json, golang.org/x/tools/go/packages, go/build's Import) is
      a field of the record [Host]: every result below holds for every host. *)

From Stdlib Require Import Ascii String.
From stdpp Require Import gmap strings list fin_maps pretty.

Local Open Scope string_scope.
Local Open Scope list_scope.

(** ** Go errors *)

(** [io_EOF] is the sentinel [io.EOF]; [foreign] is an error built by one of
    the external facilities; [errorString] is what [fmt.Errorf] returns for a
    format without [%w]; [wrapError] is what it returns for a format with
    [%w]. *)
Inductive error : Type :=
| io_EOF
| foreign (msg : string)
| errorString (s : string)
| wrapError (msg : string) (err : error).

#[global] Instance error_eq_dec : EqDecision error.
Proof. solve_decision. Defined.

Definition Error (e : error) : string :=
  match e with
  | io_EOF => "EOF"
  | foreign msg => msg
  | errorString s => s
  | wrapError msg _ => msg
  end.

Definition errors_Unwrap (e : error) : option error :=
  match e with
  | wrapError _ err => Some err
  | _ => None
  end.

(** [err == io.EOF] *)
Definition is_EOF (err : option error) : bool :=
  match err with
  | Some io_EOF => true
  | _ => false
  end.

(** [fmt.Errorf("error reading module data %w", err)] *)
Definition Errorf_reading_module_data (err : error) : error :=
  wrapError ("error reading module data " +:+ Error err) err.

(** [fmt.Errorf("couldn't find main module")] *)
Definition Errorf_no_main_module : error :=
  errorString "couldn't find main module".

(** [fmt.Errorf("found %d local packages, expected 1", n)] *)
Definition Errorf_found_local_packages (n : nat) : error :=
  errorString ("found " +:+ pretty n +:+ " local packages, expected 1").

(** ** Data model *)

Record modInfo : Type := {
  Path : string;
  Dir : string;
  Main : bool
}.

(** The zero value of [var info modInfo]. *)
Definition modInfo_zero : modInfo := {| Path := ""; Dir := ""; Main := false |}.

(** Address of a heap-allocated [modInfo]. *)
Definition ptr : Type := nat.

Record modules : Type := {
  main : option ptr;
  deps : gmap string ptr
}.

(** The data fields of [go/build.Context]; its function-valued hooks
    (JoinPath, ReadDir, ...) are nil in [go/build.Default] and are never
    touched by this package. *)
Record gb_Context : Type := {
  GOARCH : string;
  GOOS : string;
  GOROOT : string;
  GOPATH : string;
  ctxt_Dir : string;
  CgoEnabled : bool;
  UseAllFiles : bool;
  Compiler : string;
  BuildTags : list string;
  ToolTags : list string;
  ReleaseTags : list string;
  InstallSuffix : string
}.

Definition set_Dir (c : gb_Context) (dir : string) : gb_Context :=
  {| GOARCH := GOARCH c; GOOS := GOOS c; GOROOT := GOROOT c;
     GOPATH := GOPATH c; ctxt_Dir := dir; CgoEnabled := CgoEnabled c;
     UseAllFiles := UseAllFiles c; Compiler := Compiler c;
     BuildTags := BuildTags c; ToolTags := ToolTags c;
     ReleaseTags := ReleaseTags c; InstallSuffix := InstallSuffix c |}.

Definition set_GOROOT (c : gb_Context) (goroot : string) : gb_Context :=
  {| GOARCH := GOARCH c; GOOS := GOOS c; GOROOT := goroot;
     GOPATH := GOPATH c; ctxt_Dir := ctxt_Dir c; CgoEnabled := CgoEnabled c;
     UseAllFiles := UseAllFiles c; Compiler := Compiler c;
     BuildTags := BuildTags c; ToolTags := ToolTags c;
     ReleaseTags := ReleaseTags c; InstallSuffix := InstallSuffix c |}.

Record goBuildContext : Type := {
  bc : gb_Context
}.

(** ** The standard logger *)

Inductive log_arg : Type :=
| arg_string (s : string)
| arg_error (e : option error).

(** One call of [log.Printf]: the format and its operands. *)
Record log_entry : Type := {
  log_format : string;
  log_args : list log_arg
}.

Definition dquote : string := String "034"%char EmptyString.
Definition newline : string := String "010"%char EmptyString.

Definition gorootWarningTemplate : string :=
  "NOTICE!" +:+ newline +:+
  "-----------------------------------------------------------------" +:+ newline +:+
  "ko and go have mismatched GOROOT:" +:+ newline +:+
  "    go/build.Default.GOROOT = %q" +:+ newline +:+
  "    $(go env GOROOT) = %q" +:+ newline +:+
  newline +:+
  "Inferring GOROOT=%q" +:+ newline +:+
  newline +:+
  "Run this to remove this warning:" +:+ newline +:+
  "    export GOROOT=$(go env GOROOT)" +:+ newline +:+
  newline +:+
  "For more information see:" +:+ newline +:+
  "    https://github.com/google/ko/issues/106" +:+ newline +:+
  "-----------------------------------------------------------------" +:+ newline.

Definition probeErrorFormat : string :=
  "Unexpected error running " +:+ dquote +:+ "go env GOROOT" +:+ dquote +:+
  ": %v" +:+ newline +:+ "%v".

Definition probeEmptyFormat : string :=
  "Unexpected: $(go env GOROOT) == " +:+ dquote +:+ dquote.

(** ** Process state and its monad *)

Record Process : Type := {
  gb_Default : gb_Context;
  log_output : list log_entry;
  heap : list modInfo
}.

Definition M (A : Type) : Type := Process -> A * Process.

Definition ret {A} (a : A) : M A := fun s => (a, s).

Definition bind {A B} (m : M A) (k : A -> M B) : M B :=
  fun s => let (a, s') := m s in k a s'.

Notation "x <- m ;; k" := (bind m (fun x => k))
  (at level 100, m at next level, right associativity).
Notation "m ;;; k" := (bind m (fun _ => k))
  (at level 100, right associativity).

(** Reads the package variable [go/build.Default]. *)
Definition read_gb_Default : M gb_Context := fun s => (gb_Default s, s).

(** [log.Printf(format, args...)] *)
Definition log_Printf (format : string) (args : list log_arg) : M unit :=
  fun s => (tt, {| gb_Default := gb_Default s;
                   log_output := log_output s ++ [{| log_format := format; log_args := args |}];
                   heap := heap s |}).

(** [&info] for a variable that escapes: a fresh cell holding [info]. *)
Definition new_modInfo (info : modInfo) : M ptr :=
  fun s => (length (heap s),
            {| gb_Default := gb_Default s;
               log_output := log_output s;
               heap := heap s ++ [info] |}).

(** [*p] in a given process state. *)
Definition deref (s : Process) (p : ptr) : option modInfo := heap s !! p.

(** ** External facilities *)

(** [exec.Cmd] as this package fills it. *)
Record exec_Cmd : Type := {
  cmd_Args : list string;
  cmd_Dir : string
}.

(** One outcome of [Decode(&info)] on a [json.Decoder]: either a value was
    decoded into [info], or decoding stopped with an error after [info] was
    filled as far as the decoder got. *)
Inductive decode_outcome : Type :=
| decoded (info : modInfo)
| failed (partial : modInfo) (err : error).

(** A decoder over a finite byte stream: the outcomes still to come; once
    they are used up every call reports [io.EOF]. *)
Definition json_Decoder : Type := list decode_outcome.

Inductive packages_LoadMode : Type := NeedName.

Record packages_Config : Type := {
  cfg_Mode : packages_LoadMode;
  cfg_Dir : string
}.

Record packages_Package : Type := {
  PkgPath : string
}.

Inductive gb_ImportMode : Type := ImportComment.

Record gb_Package : Type := {
  pkg_Dir : string;
  pkg_ImportPath : string;
  pkg_GoFiles : list string;
  pkg_Imports : list string
}.

Record Host : Type := {
  context_Context : Type;
  (** [exec.CommandContext(ctx, name, args...)] with [Dir] set, then [Output()] *)
  cmd_Output : context_Context -> exec_Cmd -> string * option error;
  strings_TrimSpace : string -> string;
  (** [json.NewDecoder(bytes.NewReader(output))] *)
  json_NewDecoder : string -> json_Decoder;
  packages_Load : packages_Config -> string -> list packages_Package * option error;
  (** the [Import] method of [go/build.Context], which reads the context it
      is called on *)
  gb_Import : gb_Context -> string -> string -> gb_ImportMode -> option gb_Package * option error
}.

(** [dec.Decode(&info)]: the new decoder state, the contents of [info]
    afterwards, and the error. *)
Definition Decode (dec : json_Decoder) (info : modInfo)
  : json_Decoder * modInfo * option error :=
  match dec with
  | [] => ([], info, Some io_EOF)
  | decoded v :: rest => (rest, v, None)
  | failed partial err :: rest => (rest, partial, Some err)
  end.

(** ** The build context *)

Section BuildContext.

Variable host : Host.

Abbreviation context := (context_Context host).

(** [getGoroot] shells out to [go env GOROOT]. *)
Definition getGoroot (ctx : context) (dir : string) : M (string * option error) :=
  let cmd := {| cmd_Args := ["go"; "env"; "GOROOT"]; cmd_Dir := dir |} in
  let (output, err) := cmd_Output host ctx cmd in
  ret (strings_TrimSpace host output, err).

(** [newBuildContext] returns a pointer to a fresh [goBuildContext] (here
    [Some g]) and an error. *)
Definition newBuildContext (ctx : context) (dir : string)
  : M (option goBuildContext * option error) :=
  default <- read_gb_Default ;;
  let g := {| bc := default |} in
  let g := {| bc := set_Dir (bc g) dir |} in
  r <- getGoroot ctx dir ;;
  let (goroot, err) := r in
  goroot <- match err with
            | Some _ =>
                log_Printf probeErrorFormat [arg_error err; arg_string goroot] ;;;
                ret ""
            | None =>
                if decide (goroot = "")
                then log_Printf probeEmptyFormat [] ;;; ret goroot
                else ret goroot
            end ;;
  g <- (if decide (goroot <> "" /\ GOROOT (bc g) <> goroot)
        then
          log_Printf gorootWarningTemplate
            [arg_string (GOROOT (bc g)); arg_string goroot; arg_string goroot] ;;;
          ret {| bc := set_GOROOT (bc g) goroot |}
        else ret g) ;;
  ret (Some g, None).

(** [importPackage] wraps [go/build.Context.Import]. *)
Definition importPackage (g : goBuildContext) (path srcDir : string)
  : M (option gb_Package * option error) :=
  ret (gb_Import host (bc g) path srcDir ImportComment).

(** The [for] loop of [moduleInfo], by recursion on the outcomes the decoder
    still holds.  Each iteration declares a fresh [info], decodes into it,
    leaves the loop on [io.EOF], and otherwise stores [&info] under
    [info.Path], makes it the main module when [info.Main], and only then
    looks at the decoder's error.  The result is the [modules] value at the
    [break], or the error of the early [return]. *)
Fixpoint moduleInfo_loop (dec : json_Decoder) (mods : modules)
  : M (modules + error) :=
  match dec with
  | [] => ret (inl mods)
  | outcome :: rest =>
      let (info, err) := match outcome with
                         | decoded v => (v, None)
                         | failed partial e => (partial, Some e)
                         end in
      if is_EOF err then ret (inl mods)
      else
        p <- new_modInfo info ;;
        let mods := {| main := main mods;
                       deps := <[Path info := p]> (deps mods) |} in
        let mods := if Main info
                    then {| main := Some p; deps := deps mods |}
                    else mods in
        match err with
        | Some e => ret (inr (Errorf_reading_module_data e))
        | None => moduleInfo_loop rest mods
        end
  end.

(** [moduleInfo]: the module graph of the project in [g.bc.Dir]; a nil
    graph is [None]. *)
Definition moduleInfo (g : goBuildContext) (ctx : context)
  : M (option modules * option error) :=
  let mods := {| main := None; deps := ∅ |} in
  let cmd := {| cmd_Args := ["go"; "list"; "-mod=readonly"; "-json"; "-m"; "all"];
                cmd_Dir := ctxt_Dir (bc g) |} in
  let (output, err) := cmd_Output host ctx cmd in
  match err with
  | Some _ => ret (None, None)
  | None =>
      let dec := json_NewDecoder host output in
      r <- moduleInfo_loop dec mods ;;
      match r with
      | inr e => ret (None, Some e)
      | inl mods =>
          match main mods with
          | None => ret (None, Some Errorf_no_main_module)
          | Some _ => ret (Some mods, None)
          end
      end
  end.

Definition qualifyLocalImport (g : goBuildContext) (importpath : string)
  : M (string * option error) :=
  let cfg := {| cfg_Mode := NeedName; cfg_Dir := ctxt_Dir (bc g) |} in
  let (pkgs, err) := packages_Load host cfg importpath in
  match err with
  | Some _ => ret ("", err)
  | None =>
      if decide (length pkgs <> 1)
      then ret ("", Some (Errorf_found_local_packages (length pkgs)))
      else (* pkgs[0] exists: len(pkgs) == 1 here *)
        ret (from_option PkgPath "" (pkgs !! 0), None)
  end.

End BuildContext.

(** The interface [buildContext]: what a build context can do. *)
Class buildContext (host : Host) (T : Type) : Type := {
  do_importPackage : T -> string -> string -> M (option gb_Package * option error);
  do_moduleInfo : T -> context_Context host -> M (option modules * option error);
  do_qualifyLocalImport : T -> string -> M (string * option error)
}.

(** [goBuildContext] implements it. *)
#[global] Instance goBuildContext_buildContext (host : Host)
  : buildContext host goBuildContext :=
  {| do_importPackage := importPackage host;
     do_moduleInfo := moduleInfo host;
     do_qualifyLocalImport := qualifyLocalImport host |}.

(** ** What the decoding loop computes *)

(** The records that [Decode] hands over before the loop stops: the longest
    prefix of successfully decoded outcomes. *)
Fixpoint decoded_records (dec : json_Decoder) : list modInfo :=
  match dec with
  | decoded v :: rest => v :: decoded_records rest
  | _ => []
  end.

(** What is left of the decoder when the loop stops. *)
Fixpoint decode_stop (dec : json_Decoder) : json_Decoder :=
  match dec with
  | decoded _ :: rest => decode_stop rest
  | _ => dec
  end.

(** The effect of one iteration on the graph, [p] being [&info]. *)
Definition record_one (p : ptr) (info : modInfo) (mods : modules) : modules :=
  {| main := if Main info then Some p else main mods;
     deps := <[Path info := p]> (deps mods) |}.

(** The effect of the iterations over [recs], the first cell being [base]. *)
Fixpoint record_all (base : ptr) (recs : list modInfo) (mods : modules) : modules :=
  match recs with
  | [] => mods
  | info :: rest => record_all (S base) rest (record_one base info mods)
  end.

(** The process after the cells for [recs] have been allocated. *)
Definition alloc_all (recs : list modInfo) (s : Process) : Process :=
  {| gb_Default := gb_Default s;
     log_output := log_output s;
     heap := heap s ++ recs |}.

Definition empty_modules : modules := {| main := None; deps := ∅ |}.

(** The command line of [moduleInfo] and of [getGoroot]. *)
Definition list_cmd (g : goBuildContext) : exec_Cmd :=
  {| cmd_Args := ["go"; "list"; "-mod=readonly"; "-json"; "-m"; "all"];
     cmd_Dir := ctxt_Dir (bc g) |}.

Definition goroot_cmd (dir : string) : exec_Cmd :=
  {| cmd_Args := ["go"; "env"; "GOROOT"]; cmd_Dir := dir |}.

(** The [packages.Config] of [qualifyLocalImport]. *)
Definition load_cfg (g : goBuildContext) : packages_Config :=
  {| cfg_Mode := NeedName; cfg_Dir := ctxt_Dir (bc g) |}.

(** Every later record in [l] after position [i] satisfies [P]. *)
Definition later_all (P : modInfo -> Prop) (l : list modInfo) (i : nat) : Prop :=
  forall j r', i < j -> l !! j = Some r' -> P r'.

(** The end of [moduleInfo], after the loop has left by [break]. *)
Definition finish (mods : modules) : option modules * option error :=
  match main mods with
  | None => (None, Some Errorf_no_main_module)
  | Some _ => (Some mods, None)
  end.

(** The process after one more line has been logged. *)
Definition logged (s : Process) (entry : log_entry) : Process :=
  {| gb_Default := gb_Default s;
     log_output := log_output s ++ [entry];
     heap := heap s |}.

Definition probe_error_entry (root : string) (err : option error) : log_entry :=
  {| log_format := probeErrorFormat; log_args := [arg_error err; arg_string root] |}.

Definition probe_empty_entry : log_entry :=
  {| log_format := probeEmptyFormat; log_args := [] |}.

Definition mismatch_entry (default root : string) : log_entry :=
  {| log_format := gorootWarningTemplate;
     log_args := [arg_string default; arg_string root; arg_string root] |}.

(** The invariant of the module graph as the specification words it: a
    graph returned by [moduleInfo] comes from a stream with exactly one
    record marked main, that record is [main], and it is the record stored
    under its path. *)
Definition main_is_the_only_main_record (host : Host) (g : goBuildContext)
    (ctx : context_Context host) (s : Process) : Prop :=
  forall mods s',
    moduleInfo host g ctx s = (Some mods, None, s') ->
    let recs := decoded_records
                  (json_NewDecoder host (cmd_Output host ctx (list_cmd g)).1) in
    length (filter (fun r => Main r = true) recs) = 1 /\
    exists p r, main mods = Some p /\ deref s' p = Some r /\
                Main r = true /\ deps mods !! Path r = Some p.

(** ** A scripted host *)

(** A host whose external facilities answer from a script, standing for the
    toolchain in the examples below. *)
Record script : Type := {
  probe_out : string * option error;
  listing_out : string * option error;
  listing_records : json_Decoder;
  load_out : list packages_Package * option error
}.

Definition is_space (c : ascii) : bool :=
  match nat_of_ascii c with
  | 9 | 10 | 11 | 12 | 13 | 32 => true
  | _ => false
  end.

Fixpoint trim_left (s : string) : string :=
  match s with
  | EmptyString => EmptyString
  | String c rest => if is_space c then trim_left rest else s
  end.

Definition reverse_string (s : string) : string :=
  string_of_list_ascii (rev (list_ascii_of_string s)).

(** [strings.TrimSpace] on ASCII text. *)
Definition trim_ascii (s : string) : string :=
  reverse_string (trim_left (reverse_string (trim_left s))).

Definition scripted (sc : script) : Host :=
  {| context_Context := unit;
     cmd_Output := fun _ cmd =>
       if decide (cmd_Args cmd = ["go"; "env"; "GOROOT"])
       then probe_out sc else listing_out sc;
     strings_TrimSpace := trim_ascii;
     json_NewDecoder := fun _ => listing_records sc;
     packages_Load := fun _ _ => load_out sc;
     gb_Import := fun _ _ _ _ => (None, Some (foreign "cannot find package")) |}.

Definition exit_status_1 : error := foreign "exit status 1".

Definition app : modInfo :=
  {| Path := "example.com/app"; Dir := "/src/app"; Main := true |}.

Definition lib : modInfo :=
  {| Path := "example.com/lib"; Dir := "/go/pkg/mod/example.com/lib"; Main := false |}.

Definition tool : modInfo :=
  {| Path := "example.com/tool"; Dir := "/src/tool"; Main := true |}.

(** A non-main record that repeats the path of [app]. *)
Definition app_again : modInfo :=
  {| Path := "example.com/app"; Dir := "/go/pkg/mod/example.com/app"; Main := false |}.

Definition usr_local_go : gb_Context :=
  {| GOARCH := "amd64"; GOOS := "linux"; GOROOT := "/usr/local/go";
     GOPATH := "/go"; ctxt_Dir := ""; CgoEnabled := true;
     UseAllFiles := false; Compiler := "gc"; BuildTags := [];
     ToolTags := []; ReleaseTags := ["go1.1"; "go1.2"]; InstallSuffix := "" |}.

Definition start : Process :=
  {| gb_Default := usr_local_go; log_output := []; heap := [] |}.

Definition in_src_app : goBuildContext :=
  {| bc := set_Dir usr_local_go "/src/app" |}.

(** The toolchain answers [go env GOROOT] with [probe] and prints the
    records [dec] for [go list]. *)
Definition toolchain (probe : string * option error) (dec : json_Decoder) : Host :=
  scripted {| probe_out := probe; listing_out := ("{...}", None);
              listing_records := dec; load_out := ([], None) |}.

(** [go list] fails: not a module-based project. *)
Definition no_modules : Host :=
  scripted {| probe_out := ("/usr/local/go" +:+ newline, None);
              listing_out := ("", Some exit_status_1);
              listing_records := []; load_out := ([], None) |}.

(** The loader answers with [out]. *)
Definition loader (out : list packages_Package * option error) : Host :=
  scripted {| probe_out := ("/usr/local/go" +:+ newline, None);
              listing_out := ("", Some exit_status_1);
              listing_records := []; load_out := out |}.

Definition go_1_15 : string * option error := ("/opt/go1.15" +:+ newline, None).

(** ** Closed forms of construction and of decoding *)

(** The root a new context ends up with: the probed one when the probe
    succeeded with a non-empty answer, the default's otherwise. *)
Definition reconciled_root (default goroot : string) (err : option error) : string :=
  match err with
  | Some _ => default
  | None => if decide (goroot = "") then default else goroot
  end.

(** The lines [newBuildContext] logs, [goroot] and [err] being what
    [getGoroot] returned. *)
Definition construction_log (default goroot : string) (err : option error)
  : list log_entry :=
  match err with
  | Some _ => [probe_error_entry goroot err]
  | None =>
      if decide (goroot = "") then [probe_empty_entry]
      else if decide (default = goroot) then []
      else [mismatch_entry default goroot]
  end.

(** The process after the lines [l] have been logged. *)
Definition logged_all (s : Process) (l : list log_entry) : Process :=
  {| gb_Default := gb_Default s;
     log_output := log_output s ++ l;
     heap := heap s |}.

(** The outcome that makes the loop return early: the first failed decode,
    unless its error is [io.EOF]. *)
Definition decode_failure (dec : json_Decoder) : option (modInfo * error) :=
  match decode_stop dec with
  | failed partial e :: _ => if is_EOF (Some e) then None else Some (partial, e)
  | _ => None
  end.

(** A second context for [/src/app], with another root. *)
Definition in_src_app_go_1_15 : goBuildContext :=
  {| bc := set_GOROOT (set_Dir usr_local_go "/src/app") "/opt/go1.15" |}.

(** The graph of the two-module project, its cells at addresses [base] and
    [base + 1]. *)
Definition two_module_graph (base : ptr) : modules :=
  {| main := Some base;
     deps := <["example.com/lib" := S base]> (<["example.com/app" := base]> ∅) |}.

(** The process after [n] calls of [moduleInfo] on the two-module project. *)
Definition after_calls (n : nat) : Process :=
  {| gb_Default := usr_local_go; log_output := [];
     heap := concat (replicate n [app; lib]) |}.

(** The toolchain of the two-module project. *)
Definition two_modules : Host := toolchain go_1_15 [decoded app; decoded lib].

(** * Properties *)

(** ** The decoding loop *)

Lemma decoder_split (dec : json_Decoder) :
  dec = (decoded <$> decoded_records dec) ++ decode_stop dec.
Proof.
  induction dec as [|[v|partial e] rest IH]; simpl; try reflexivity.
  f_equal. exact IH.
Qed.

Lemma decode_stop_shape (dec : json_Decoder) :
  decode_stop dec = [] \/
  exists partial e rest, decode_stop dec = failed partial e :: rest.
Proof.
  induction dec as [|[v|partial e] rest IH]; simpl; eauto.
Qed.

Lemma decoded_records_fmap (recs : list modInfo) :
  decoded_records (decoded <$> recs) = recs.
Proof. induction recs as [|r recs IH]; simpl; [done | by f_equal]. Qed.

Lemma decoded_records_failed (recs : list modInfo) partial e rest :
  decoded_records ((decoded <$> recs) ++ failed partial e :: rest) = recs.
Proof. induction recs as [|r recs IH]; simpl; [done | by f_equal]. Qed.

(** The loop written with [Decode], as the source has it. *)
Lemma moduleInfo_loop_Decode (dec : json_Decoder) (mods : modules) :
  moduleInfo_loop dec mods =
  let '(rest, info, err) := Decode dec modInfo_zero in
  if is_EOF err then ret (inl mods)
  else
    p <- new_modInfo info ;;
    let mods := {| main := main mods; deps := <[Path info := p]> (deps mods) |} in
    let mods := if Main info then {| main := Some p; deps := deps mods |} else mods in
    match err with
    | Some e => ret (inr (Errorf_reading_module_data e))
    | None => moduleInfo_loop rest mods
    end.
Proof. destruct dec as [|[v|partial e] rest]; reflexivity. Qed.

Lemma alloc_all_nil (s : Process) : alloc_all [] s = s.
Proof. destruct s; unfold alloc_all; simpl. now rewrite app_nil_r. Qed.

Lemma alloc_all_cons (r : modInfo) (recs : list modInfo) (s : Process) :
  alloc_all recs (alloc_all [r] s) = alloc_all (r :: recs) s.
Proof. unfold alloc_all; simpl. now rewrite <- app_assoc. Qed.

Lemma moduleInfo_loop_step (info : modInfo) (rest : json_Decoder) mods s :
  moduleInfo_loop (decoded info :: rest) mods s =
  moduleInfo_loop rest (record_one (length (heap s)) info mods) (alloc_all [info] s).
Proof.
  simpl. unfold bind, new_modInfo, record_one, alloc_all; simpl.
  destruct (Main info); reflexivity.
Qed.

Lemma moduleInfo_loop_decoded (recs : list modInfo) (dec : json_Decoder) mods s :
  moduleInfo_loop ((decoded <$> recs) ++ dec) mods s =
  moduleInfo_loop dec (record_all (length (heap s)) recs mods) (alloc_all recs s).
Proof.
  revert mods s. induction recs as [|r recs IH]; intros mods s.
  - simpl. now rewrite alloc_all_nil.
  - change ((decoded <$> r :: recs) ++ dec)
      with (decoded r :: ((decoded <$> recs) ++ dec)).
    rewrite moduleInfo_loop_step, IH, alloc_all_cons. simpl.
    rewrite length_app. simpl.
    now replace (length (heap s) + 1) with (S (length (heap s))) by lia.
Qed.

(** The three ways out of the loop. *)
Lemma moduleInfo_loop_eof (recs : list modInfo) mods s :
  moduleInfo_loop (decoded <$> recs) mods s =
  (inl (record_all (length (heap s)) recs mods), alloc_all recs s).
Proof.
  rewrite <- (app_nil_r (decoded <$> recs)), moduleInfo_loop_decoded.
  reflexivity.
Qed.

Lemma moduleInfo_loop_failed (recs : list modInfo) partial e rest mods s :
  e <> io_EOF ->
  moduleInfo_loop ((decoded <$> recs) ++ failed partial e :: rest) mods s =
  (inr (Errorf_reading_module_data e), alloc_all (recs ++ [partial]) s).
Proof.
  intros He. rewrite moduleInfo_loop_decoded. simpl.
  destruct e; try congruence;
    unfold bind, new_modInfo, ret, alloc_all; simpl;
    destruct (Main partial); simpl; now rewrite <- app_assoc.
Qed.

Lemma moduleInfo_loop_failed_eof (recs : list modInfo) partial rest mods s :
  moduleInfo_loop ((decoded <$> recs) ++ failed partial io_EOF :: rest) mods s =
  (inl (record_all (length (heap s)) recs mods), alloc_all recs s).
Proof. rewrite moduleInfo_loop_decoded. reflexivity. Qed.

(** ** The graph after the loop *)

Lemma record_all_app (l1 l2 : list modInfo) base mods :
  record_all base (l1 ++ l2) mods =
  record_all (base + length l1) l2 (record_all base l1 mods).
Proof.
  revert base mods. induction l1 as [|r l1 IH]; intros base mods; simpl.
  - now rewrite Nat.add_0_r.
  - rewrite IH. f_equal. lia.
Qed.

Lemma record_all_main_none (l : list modInfo) base mods :
  Forall (fun r => Main r = false) l ->
  main (record_all base l mods) = main mods.
Proof.
  revert base mods. induction l as [|r l IH]; intros base mods Hl; simpl.
  - reflexivity.
  - inversion Hl as [|? ? Hr Hl']; subst.
    rewrite IH by assumption. simpl. now rewrite Hr.
Qed.

Lemma record_all_deps_other (l : list modInfo) base mods (p : string) :
  Forall (fun r => Path r <> p) l ->
  deps (record_all base l mods) !! p = deps mods !! p.
Proof.
  revert base mods. induction l as [|r l IH]; intros base mods Hl; simpl.
  - reflexivity.
  - inversion Hl as [|? ? Hr Hl']; subst.
    rewrite IH by assumption. simpl. now apply lookup_insert_ne.
Qed.

Lemma later_all_drop (P : modInfo -> Prop) (l : list modInfo) (i : nat) :
  later_all P l i -> Forall P (drop (S i) l).
Proof.
  intros H. apply Forall_lookup. intros k x Hk.
  rewrite lookup_drop in Hk. apply (H (S i + k)); [lia | exact Hk].
Qed.

Lemma record_all_at (l : list modInfo) base mods i r :
  l !! i = Some r ->
  record_all base l mods =
  record_all (S (base + i)) (drop (S i) l)
    (record_one (base + i) r (record_all base (take i l) mods)).
Proof.
  intros Hi.
  rewrite <- (take_drop_middle l i r Hi) at 1.
  rewrite record_all_app. simpl.
  rewrite length_take_le; [reflexivity|].
  apply lookup_lt_Some in Hi. lia.
Qed.

Lemma record_all_main_last (l : list modInfo) base mods i r :
  l !! i = Some r -> Main r = true ->
  later_all (fun r' => Main r' = false) l i ->
  main (record_all base l mods) = Some (base + i).
Proof.
  intros Hi Hr Hlater.
  rewrite (record_all_at l base mods i r Hi).
  rewrite record_all_main_none by now apply later_all_drop.
  simpl. now rewrite Hr.
Qed.

Lemma record_all_deps_last (l : list modInfo) base mods i r :
  l !! i = Some r ->
  later_all (fun r' => Path r' <> Path r) l i ->
  deps (record_all base l mods) !! Path r = Some (base + i).
Proof.
  intros Hi Hlater.
  rewrite (record_all_at l base mods i r Hi).
  rewrite record_all_deps_other by now apply later_all_drop.
  simpl. apply lookup_insert_eq.
Qed.

Lemma record_all_dom (l : list modInfo) base mods :
  dom (deps (record_all base l mods)) =
  list_to_set (Path <$> l) ∪ dom (deps mods).
Proof.
  revert base mods. induction l as [|r l IH]; intros base mods.
  - simpl. now rewrite (left_id_L ∅ (∪)).
  - rewrite fmap_cons, list_to_set_cons. simpl. rewrite IH. simpl.
    rewrite dom_insert_L, (assoc_L (∪)).
    now rewrite (comm_L (∪) (list_to_set (Path <$> l)) {[Path r]}).
Qed.

Lemma record_all_size (l : list modInfo) base :
  NoDup (Path <$> l) ->
  size (deps (record_all base l empty_modules)) = length l.
Proof.
  intros Hnd. rewrite <- size_dom, record_all_dom. simpl.
  rewrite dom_empty_L, union_empty_r_L.
  rewrite size_list_to_set by assumption. apply length_fmap.
Qed.

Lemma NoDup_later_all (l : list modInfo) i r :
  NoDup (Path <$> l) -> l !! i = Some r ->
  later_all (fun r' => Path r' <> Path r) l i.
Proof.
  intros Hnd Hi j r' Hij Hj Heq.
  assert (i = j); [|lia].
  apply (NoDup_lookup (Path <$> l) i j (Path r)); [assumption | |].
  - rewrite list_lookup_fmap, Hi. reflexivity.
  - rewrite list_lookup_fmap, Hj. simpl. now rewrite Heq.
Qed.

(** A list with a record satisfying [P] has a last one. *)
Lemma last_exists (P : modInfo -> Prop) `{!forall r, Decision (P r)}
    (l : list modInfo) :
  Exists P l ->
  exists i r, l !! i = Some r /\ P r /\ later_all (fun r' => ~ P r') l i.
Proof.
  induction l as [|x l IH]; intros Hex.
  - inversion Hex.
  - destruct (decide (Exists P l)) as [Hl|Hl].
    + destruct (IH Hl) as (i & r & Hi & Hr & Hlater).
      exists (S i), r. split; [exact Hi|]. split; [exact Hr|].
      intros j r' Hij Hj. destruct j as [|j]; [lia|].
      apply (Hlater j); [lia | exact Hj].
    + inversion Hex as [? ? Hx|? ? Hl']; subst; [|contradiction].
      exists 0, x. split; [reflexivity|]. split; [exact Hx|].
      intros j r' Hij Hj. destruct j as [|j]; [lia|]. simpl in Hj.
      apply not_Exists_Forall in Hl; [|assumption].
      rewrite Forall_lookup in Hl. exact (Hl j r' Hj).
Qed.

Lemma last_main_exists (l : list modInfo) :
  Exists (fun r => Main r = true) l ->
  exists i r, l !! i = Some r /\ Main r = true /\
              later_all (fun r' => Main r' = false) l i.
Proof.
  intros Hex.
  destruct (last_exists (fun r => Main r = true) l Hex) as (i & r & Hi & Hr & Hl).
  exists i, r. repeat split; try assumption.
  intros j r' Hij Hj. specialize (Hl j r' Hij Hj). simpl in Hl.
  now destruct (Main r').
Qed.

Lemma no_main_or_some_main (l : list modInfo) :
  Forall (fun r => Main r = false) l \/ Exists (fun r => Main r = true) l.
Proof.
  induction l as [|x l [IH|IH]].
  - left. constructor.
  - destruct (Main x) eqn:Hx.
    + right. now constructor.
    + left. now constructor.
  - right. now constructor 2.
Qed.

Lemma alloc_all_deref (recs : list modInfo) (s : Process) i r :
  recs !! i = Some r ->
  deref (alloc_all recs s) (length (heap s) + i) = Some r.
Proof.
  intros Hi. unfold deref, alloc_all; simpl.
  rewrite lookup_app_r by lia.
  now replace (length (heap s) + i - length (heap s)) with i by lia.
Qed.

(** ** The outcomes of [moduleInfo] *)

Section ModuleInfo.

Variable host : Host.
Variable g : goBuildContext.
Variable ctx : context_Context host.

Lemma moduleInfo_invocation_failed (s : Process) output e :
  cmd_Output host ctx (list_cmd g) = (output, Some e) ->
  moduleInfo host g ctx s = (None, None, s).
Proof.
  intros Hcmd. unfold moduleInfo. fold (list_cmd g). now rewrite Hcmd.
Qed.

Lemma moduleInfo_invoked (s : Process) output :
  cmd_Output host ctx (list_cmd g) = (output, None) ->
  moduleInfo host g ctx s =
  let (r, s') := moduleInfo_loop (json_NewDecoder host output) empty_modules s in
  match r with
  | inr e => (None, Some e, s')
  | inl mods => (finish mods, s')
  end.
Proof.
  intros Hcmd. unfold moduleInfo. fold (list_cmd g). rewrite Hcmd.
  unfold bind. fold empty_modules.
  destruct (moduleInfo_loop _ _ s) as [[mods|e] s']; [|reflexivity].
  unfold finish. now destruct (main mods).
Qed.

Lemma moduleInfo_eof (s : Process) output recs :
  cmd_Output host ctx (list_cmd g) = (output, None) ->
  json_NewDecoder host output = decoded <$> recs ->
  moduleInfo host g ctx s =
  (finish (record_all (length (heap s)) recs empty_modules), alloc_all recs s).
Proof.
  intros Hcmd Hdec. rewrite (moduleInfo_invoked s output Hcmd), Hdec.
  now rewrite moduleInfo_loop_eof.
Qed.

Lemma moduleInfo_failed (s : Process) output recs partial e rest :
  cmd_Output host ctx (list_cmd g) = (output, None) ->
  json_NewDecoder host output = (decoded <$> recs) ++ failed partial e :: rest ->
  e <> io_EOF ->
  moduleInfo host g ctx s =
  (None, Some (Errorf_reading_module_data e), alloc_all (recs ++ [partial]) s).
Proof.
  intros Hcmd Hdec He. rewrite (moduleInfo_invoked s output Hcmd), Hdec.
  now rewrite moduleInfo_loop_failed.
Qed.

(** Whatever the stream, a call that got past the invocation either ends
    as [finish] says on the decoded records, or with a decode error. *)
Lemma moduleInfo_cases (s : Process) output :
  cmd_Output host ctx (list_cmd g) = (output, None) ->
  let recs := decoded_records (json_NewDecoder host output) in
  moduleInfo host g ctx s =
    (finish (record_all (length (heap s)) recs empty_modules), alloc_all recs s)
  \/ exists e s', moduleInfo host g ctx s = (None, Some (Errorf_reading_module_data e), s').
Proof.
  intros Hcmd recs. rewrite (moduleInfo_invoked s output Hcmd).
  rewrite (decoder_split (json_NewDecoder host output)). fold recs.
  destruct (decode_stop_shape (json_NewDecoder host output))
    as [Hstop|(partial & e & rest & Hstop)]; rewrite Hstop.
  - left. rewrite app_nil_r. now rewrite moduleInfo_loop_eof.
  - destruct (decide (e = io_EOF)) as [->|He].
    + left. now rewrite moduleInfo_loop_failed_eof.
    + right. rewrite moduleInfo_loop_failed by assumption. eauto.
Qed.

Lemma finish_not_nil_nil (mods : modules) : finish mods <> (None, None).
Proof. unfold finish. destruct (main mods); discriminate. Qed.

(** C1. If the invocation of [go list] fails, [moduleInfo] returns a nil
    graph and a nil error (and has not touched the process state); and a
    nil graph with a nil error is returned only then: once the invocation
    has succeeded and decoding has begun, the result is never (nil, nil). *)
Theorem moduleInfo_nil_nil_only_at_invocation (s : Process) :
  (is_Some (cmd_Output host ctx (list_cmd g)).2 ->
   moduleInfo host g ctx s = (None, None, s)) /\
  ((moduleInfo host g ctx s).1 = (None, None) ->
   is_Some (cmd_Output host ctx (list_cmd g)).2).
Proof.
  destruct (cmd_Output host ctx (list_cmd g)) as [output [e|]] eqn:Hcmd; simpl.
  - split; [|eauto]. intros _. exact (moduleInfo_invocation_failed s output e Hcmd).
  - split; [intros [? ?]; discriminate|]. intros Hnil. exfalso.
    destruct (moduleInfo_cases s output Hcmd) as [H|(e & s' & H)];
      rewrite H in Hnil; simpl in Hnil.
    + now apply finish_not_nil_nil in Hnil.
    + discriminate.
Qed.

(** C2. When the listing decodes to the end without a decode error and no
    record is marked main, [moduleInfo] returns a nil graph and the error
    "couldn't find main module", which is not a decode-failure error: it
    wraps nothing and its message differs from that of every wrapped
    decoder error. *)
Theorem moduleInfo_no_main_module (s : Process) output recs :
  cmd_Output host ctx (list_cmd g) = (output, None) ->
  json_NewDecoder host output = decoded <$> recs ->
  Forall (fun r => Main r = false) recs ->
  (moduleInfo host g ctx s).1 = (None, Some Errorf_no_main_module) /\
  Error Errorf_no_main_module = "couldn't find main module" /\
  forall e, Errorf_no_main_module <> Errorf_reading_module_data e /\
            Error Errorf_no_main_module <> Error (Errorf_reading_module_data e).
Proof.
  intros Hcmd Hdec Hrecs. split; [|split; [reflexivity|]].
  - rewrite (moduleInfo_eof s output recs Hcmd Hdec). simpl.
    unfold finish. now rewrite record_all_main_none.
  - intros e. split; discriminate.
Qed.

(** C7. When decoding a record fails with an error other than end of
    stream, [moduleInfo] returns a nil graph and a non-nil error that wraps
    the decoder's error and whose message is the decoder's message after the
    context "error reading module data". *)
Theorem moduleInfo_decode_error_fatal (s : Process) output recs partial e rest :
  cmd_Output host ctx (list_cmd g) = (output, None) ->
  json_NewDecoder host output = (decoded <$> recs) ++ failed partial e :: rest ->
  e <> io_EOF ->
  exists w, (moduleInfo host g ctx s).1 = (None, Some w) /\
            errors_Unwrap w = Some e /\
            Error w = "error reading module data " +:+ Error e.
Proof.
  intros Hcmd Hdec He. exists (Errorf_reading_module_data e).
  rewrite (moduleInfo_failed s output recs partial e rest Hcmd Hdec He).
  repeat split.
Qed.

(** C3. When the listing decodes to the end and some record is marked
    main, [moduleInfo] returns a graph whose main module is a main record,
    whose dependency map is keyed by exactly the paths of the decoded
    records (the main module's path among them) and, when the paths are
    pairwise distinct, holds each record under its path and has as many
    entries as there are decoded records.  When a path repeats the call
    still succeeds and the entry for that path is the last record with it. *)
Theorem moduleInfo_well_formed (s : Process) output recs :
  cmd_Output host ctx (list_cmd g) = (output, None) ->
  json_NewDecoder host output = decoded <$> recs ->
  Exists (fun r => Main r = true) recs ->
  exists mods s',
    moduleInfo host g ctx s = (Some mods, None, s') /\
    (exists p r, main mods = Some p /\ deref s' p = Some r /\ r ∈ recs /\
                 Main r = true /\ is_Some (deps mods !! Path r)) /\
    (forall p, is_Some (deps mods !! p) <-> p ∈ Path <$> recs) /\
    (forall i r, recs !! i = Some r ->
                 later_all (fun r' => Path r' <> Path r) recs i ->
                 exists p, deps mods !! Path r = Some p /\ deref s' p = Some r) /\
    (NoDup (Path <$> recs) ->
       size (deps mods) = length recs /\
       forall r, r ∈ recs ->
                 exists p, deps mods !! Path r = Some p /\ deref s' p = Some r).
Proof.
  intros Hcmd Hdec Hex.
  destruct (last_main_exists recs Hex) as (i & r & Hi & Hr & Hlater).
  set (base := length (heap s)).
  set (mods := record_all base recs empty_modules).
  assert (Hmain : main mods = Some (base + i))
    by exact (record_all_main_last recs base empty_modules i r Hi Hr Hlater).
  assert (Hkeys : forall p, is_Some (deps mods !! p) <-> p ∈ Path <$> recs).
  { intros p. rewrite <- elem_of_dom. unfold mods. rewrite record_all_dom.
    simpl. rewrite dom_empty_L, union_empty_r_L. apply elem_of_list_to_set. }
  assert (Hlast : forall j x, recs !! j = Some x ->
            later_all (fun r' => Path r' <> Path x) recs j ->
            exists p, deps mods !! Path x = Some p /\
                      deref (alloc_all recs s) p = Some x).
  { intros j x Hj Hl. exists (base + j). split.
    - exact (record_all_deps_last recs base empty_modules j x Hj Hl).
    - exact (alloc_all_deref recs s j x Hj). }
  exists mods, (alloc_all recs s). split; [|split; [|split; [|split]]].
  - rewrite (moduleInfo_eof s output recs Hcmd Hdec). fold base. fold mods.
    unfold finish. now rewrite Hmain.
  - exists (base + i), r. split; [exact Hmain|]. split.
    { exact (alloc_all_deref recs s i r Hi). }
    assert (Hin : r ∈ recs) by (apply list_elem_of_lookup; eauto).
    split; [exact Hin|]. split; [exact Hr|].
    apply Hkeys. apply list_elem_of_fmap. eauto.
  - exact Hkeys.
  - exact Hlast.
  - intros Hnd. split.
    + exact (record_all_size recs base Hnd).
    + intros x Hx. apply list_elem_of_lookup in Hx as [j Hj].
      apply (Hlast j x Hj). exact (NoDup_later_all recs j x Hnd Hj).
Qed.

(** C4 (amended). A graph returned by [moduleInfo] comes from a stream
    with at least one record marked main; [main] is the last such record,
    and it is the very cell stored under its path unless a later record
    repeats that path.  A stream that decodes to the end without any record
    marked main makes the call fail. *)
Theorem moduleInfo_main_is_last_main (s : Process) mods s' :
  (moduleInfo host g ctx s = (Some mods, None, s') ->
   let recs := decoded_records
                 (json_NewDecoder host (cmd_Output host ctx (list_cmd g)).1) in
   exists i r,
     recs !! i = Some r /\ Main r = true /\
     later_all (fun r' => Main r' = false) recs i /\
     main mods = Some (length (heap s) + i) /\
     deref s' (length (heap s) + i) = Some r /\
     (later_all (fun r' => Path r' <> Path r) recs i ->
      deps mods !! Path r = main mods)) /\
  (forall output recs,
     cmd_Output host ctx (list_cmd g) = (output, None) ->
     json_NewDecoder host output = decoded <$> recs ->
     Forall (fun r => Main r = false) recs ->
     exists e, (moduleInfo host g ctx s).1 = (None, Some e)).
Proof.
  split.
  - intros Hok.
    destruct (cmd_Output host ctx (list_cmd g)) as [output [e|]] eqn:Hcmd.
    { rewrite (moduleInfo_invocation_failed s output e Hcmd) in Hok. discriminate. }
    simpl. set (recs := decoded_records (json_NewDecoder host output)).
    destruct (moduleInfo_cases s output Hcmd) as [H|(e & s'' & H)];
      rewrite H in Hok; [|discriminate].
    fold recs in Hok. unfold finish in Hok.
    destruct (no_main_or_some_main recs) as [Hnone|Hsome].
    { rewrite record_all_main_none in Hok by assumption. discriminate. }
    destruct (last_main_exists recs Hsome) as (i & r & Hi & Hr & Hlater).
    pose proof (record_all_main_last recs (length (heap s)) empty_modules
                  i r Hi Hr Hlater) as Hmain.
    rewrite Hmain in Hok. inversion Hok; subst mods s'; clear Hok.
    exists i, r. repeat split; try assumption.
    + exact (alloc_all_deref recs s i r Hi).
    + intros Hpaths. rewrite Hmain.
      exact (record_all_deps_last recs (length (heap s)) empty_modules i r Hi Hpaths).
  - intros output recs Hcmd Hdec Hnone. exists Errorf_no_main_module.
    rewrite (moduleInfo_eof s output recs Hcmd Hdec). simpl.
    unfold finish. now rewrite record_all_main_none.
Qed.

End ModuleInfo.

(** ** Frame: what the methods leave alone *)

Lemma moduleInfo_loop_frame (dec : json_Decoder) (mods : modules) (s : Process) :
  gb_Default (moduleInfo_loop dec mods s).2 = gb_Default s /\
  log_output (moduleInfo_loop dec mods s).2 = log_output s.
Proof.
  revert mods s. induction dec as [|[v|partial e] rest IH]; intros mods s.
  - split; reflexivity.
  - rewrite moduleInfo_loop_step.
    destruct (IH (record_one (length (heap s)) v mods) (alloc_all [v] s)) as [-> ->].
    split; reflexivity.
  - simpl. destruct e; simpl; split; reflexivity.
Qed.

Lemma moduleInfo_frame (host : Host) (g : goBuildContext)
    (ctx : context_Context host) (s : Process) :
  gb_Default (moduleInfo host g ctx s).2 = gb_Default s /\
  log_output (moduleInfo host g ctx s).2 = log_output s.
Proof.
  destruct (cmd_Output host ctx (list_cmd g)) as [output [e|]] eqn:Hcmd.
  - rewrite (moduleInfo_invocation_failed host g ctx s output e Hcmd).
    split; reflexivity.
  - rewrite (moduleInfo_invoked host g ctx s output Hcmd).
    pose proof (moduleInfo_loop_frame (json_NewDecoder host output)
                  empty_modules s) as Hframe.
    destruct (moduleInfo_loop _ _ s) as [[mods|e] s']; exact Hframe.
Qed.

Lemma qualifyLocalImport_frame (host : Host) (g : goBuildContext)
    (importpath : string) (s : Process) :
  (qualifyLocalImport host g importpath s).2 = s.
Proof.
  unfold qualifyLocalImport.
  destruct (packages_Load host _ importpath) as [pkgs [e|]]; [reflexivity|].
  destruct (decide (length pkgs <> 1)); reflexivity.
Qed.

Lemma importPackage_frame (host : Host) (g : goBuildContext)
    (path srcDir : string) (s : Process) :
  (importPackage host g path srcDir s).2 = s.
Proof. reflexivity. Qed.

(** ** Construction of the build context *)

Lemma probe_formats_not_warning :
  probeErrorFormat <> gorootWarningTemplate /\
  probeEmptyFormat <> gorootWarningTemplate.
Proof. split; intros H; vm_compute in H; discriminate H. Qed.

(** Closes a goal about a context whose construction has been computed:
    the equations hold by computation, the frame of the methods by [H]. *)
Ltac constructed H :=
  eexists _, _; split; [reflexivity|];
  split; [reflexivity|]; split; [reflexivity|]; split; [reflexivity|];
  apply H.

Section Construction.

Variable host : Host.
Variable ctx : context_Context host.
Variable dir : string.

Lemma getGoroot_eq (s : Process) :
  getGoroot host ctx dir s =
  (strings_TrimSpace host (cmd_Output host ctx (goroot_cmd dir)).1,
   (cmd_Output host ctx (goroot_cmd dir)).2, s).
Proof.
  unfold getGoroot. fold (goroot_cmd dir).
  now destruct (cmd_Output host ctx (goroot_cmd dir)).
Qed.

(** [newBuildContext], case by case on what the probe returned. *)
Lemma newBuildContext_cases (s : Process) root err :
  (getGoroot host ctx dir s).1 = (root, err) ->
  newBuildContext host ctx dir s =
  match err with
  | Some _ =>
      (Some {| bc := set_Dir (gb_Default s) dir |}, None,
       logged s (probe_error_entry root err))
  | None =>
      if decide (root = "") then
        (Some {| bc := set_Dir (gb_Default s) dir |}, None,
         logged s probe_empty_entry)
      else if decide (GOROOT (gb_Default s) = root) then
        (Some {| bc := set_Dir (gb_Default s) dir |}, None, s)
      else
        (Some {| bc := set_GOROOT (set_Dir (gb_Default s) dir) root |}, None,
         logged s (mismatch_entry (GOROOT (gb_Default s)) root))
  end.
Proof.
  intros Hprobe. unfold newBuildContext, bind, read_gb_Default.
  destruct (getGoroot host ctx dir s) as [[root' err'] s1] eqn:Hg.
  rewrite getGoroot_eq in Hg. simpl in Hprobe.
  injection Hprobe as -> ->. injection Hg as _ _ <-.
  destruct err as [e|]; simpl.
  - destruct (decide ("" <> "" /\ GOROOT (gb_Default s) <> "")) as [[Hne _]|_];
      [congruence | reflexivity].
  - destruct (decide (root = "")) as [->|Hroot]; simpl.
    + destruct (decide ("" <> "" /\ GOROOT (gb_Default s) <> "")) as [[Hne _]|_];
        [congruence | reflexivity].
    + destruct (decide (GOROOT (gb_Default s) = root)) as [Heq|Hneq].
      * destruct (decide (root <> "" /\ GOROOT (gb_Default s) <> root))
          as [[_ Hne]|_]; [congruence | reflexivity].
      * destruct (decide (root <> "" /\ GOROOT (gb_Default s) <> root))
          as [_|Hno]; [reflexivity|]. exfalso. apply Hno. now split.
Qed.

(** C5. When the probe succeeds with a non-empty root that differs from the
    root of the copied default, the new context has the probed root and the
    log gains exactly one line, the mismatch warning; when the probe
    succeeds with the root of the default, the new context keeps that root
    and no mismatch warning is logged. *)
Theorem newBuildContext_reconciles_root (s : Process) root :
  (getGoroot host ctx dir s).1 = (root, None) ->
  (root <> "" -> root <> GOROOT (gb_Default s) ->
   exists g s',
     newBuildContext host ctx dir s = (Some g, None, s') /\
     GOROOT (bc g) = root /\
     log_output s' =
       log_output s ++ [mismatch_entry (GOROOT (gb_Default s)) root]) /\
  (root = GOROOT (gb_Default s) ->
   exists g s',
     newBuildContext host ctx dir s = (Some g, None, s') /\
     GOROOT (bc g) = GOROOT (gb_Default s) /\
     Forall (fun entry => log_format entry <> gorootWarningTemplate)
       (drop (length (log_output s)) (log_output s')) /\
     (root <> "" -> log_output s' = log_output s)).
Proof.
  intros Hprobe. rewrite (newBuildContext_cases s root None Hprobe). split.
  - intros Hne Hdiff.
    destruct (decide (root = "")) as [?|_]; [contradiction|].
    destruct (decide (GOROOT (gb_Default s) = root)) as [?|_]; [congruence|].
    eexists _, _. repeat split.
  - intros Heq. destruct (decide (root = "")) as [Hempty|Hne].
    + eexists _, _. split; [reflexivity|]. split; [reflexivity|]. split.
      * simpl. rewrite drop_app_length. constructor; [|constructor].
        exact (proj2 probe_formats_not_warning).
      * intros Hne. contradiction.
    + destruct (decide (GOROOT (gb_Default s) = root)) as [_|?]; [|congruence].
      eexists _, _. split; [reflexivity|]. split; [reflexivity|]. split.
      * rewrite drop_all. constructor.
      * reflexivity.
Qed.

(** C6. When the probe fails with an error or returns the empty string,
    one diagnostic is logged, the new context keeps the root of the copied
    default, and construction succeeds with a nil error. *)
Theorem newBuildContext_probe_failure (s : Process) root err :
  (getGoroot host ctx dir s).1 = (root, err) ->
  is_Some err \/ root = "" ->
  exists g s' entry,
    newBuildContext host ctx dir s = (Some g, None, s') /\
    log_output s' = log_output s ++ [entry] /\
    entry = match err with
            | Some _ => probe_error_entry root err
            | None => probe_empty_entry
            end /\
    bc g = set_Dir (gb_Default s) dir /\
    GOROOT (bc g) = GOROOT (gb_Default s).
Proof.
  intros Hprobe Hfail. rewrite (newBuildContext_cases s root err Hprobe).
  destruct err as [e|].
  - eexists _, _, _. repeat split.
  - destruct Hfail as [[? ?]|Hempty]; [discriminate|].
    destruct (decide (root = "")); [|contradiction].
    eexists _, _, _. repeat split.
Qed.

(** C10. Construction always succeeds: whatever the probe does,
    [newBuildContext] returns a non-nil context and a nil error. *)
Theorem newBuildContext_always_succeeds (s : Process) :
  exists g s', newBuildContext host ctx dir s = (Some g, None, s').
Proof.
  destruct (getGoroot host ctx dir s).1 as [root err] eqn:Hprobe.
  rewrite (newBuildContext_cases s root err Hprobe).
  destruct err; [eauto|].
  destruct (decide (root = "")); [eauto|].
  destruct (decide (GOROOT (gb_Default s) = root)); eauto.
Qed.

(** C9. Construction works on a copy of [go/build.Default]: the package
    variable is the same after [newBuildContext] as before, the copy
    differs from it at most in [Dir], bound to the working directory, and in
    [GOROOT]; and no later call of [moduleInfo], [qualifyLocalImport] or
    [importPackage] on the context changes the package variable. *)
Theorem gb_Default_is_never_mutated (s : Process) :
  exists g s',
    newBuildContext host ctx dir s = (Some g, None, s') /\
    gb_Default s' = gb_Default s /\
    ctxt_Dir (bc g) = dir /\
    set_GOROOT (bc g) (GOROOT (gb_Default s)) = set_Dir (gb_Default s) dir /\
    forall (t : Process) (ctx' : context_Context host) (importpath path srcDir : string),
      gb_Default (moduleInfo host g ctx' t).2 = gb_Default t /\
      gb_Default (qualifyLocalImport host g importpath t).2 = gb_Default t /\
      gb_Default (importPackage host g path srcDir t).2 = gb_Default t.
Proof.
  assert (Hlater : forall g (t : Process) (ctx' : context_Context host)
            (importpath path srcDir : string),
            gb_Default (moduleInfo host g ctx' t).2 = gb_Default t /\
            gb_Default (qualifyLocalImport host g importpath t).2 = gb_Default t /\
            gb_Default (importPackage host g path srcDir t).2 = gb_Default t).
  { intros g t ctx' importpath path srcDir. split; [|split].
    - exact (proj1 (moduleInfo_frame host g ctx' t)).
    - now rewrite qualifyLocalImport_frame.
    - now rewrite importPackage_frame. }
  assert (Hid : set_GOROOT (set_Dir (gb_Default s) dir) (GOROOT (gb_Default s))
                = set_Dir (gb_Default s) dir) by reflexivity.
  destruct (getGoroot host ctx dir s).1 as [root err] eqn:Hprobe.
  rewrite (newBuildContext_cases s root err Hprobe).
  destruct err as [e|]; [constructed Hlater|].
  destruct (decide (root = "")); [constructed Hlater|].
  destruct (decide (GOROOT (gb_Default s) = root)); constructed Hlater.
Qed.

End Construction.

(** ** Qualifying a local import *)

(** C8. [qualifyLocalImport] returns an error exactly when the loader
    returns an error or does not resolve exactly one package.  A loader
    error is returned as it is; a count other than one gives the error
    "found N local packages, expected 1" with N the count; and one resolved
    package gives its path and a nil error. *)
Theorem qualifyLocalImport_one_package (host : Host) (g : goBuildContext)
    (importpath : string) (s : Process) :
  let pkgs := (packages_Load host (load_cfg g) importpath).1 in
  let err := (packages_Load host (load_cfg g) importpath).2 in
  let path := (qualifyLocalImport host g importpath s).1.1 in
  let rerr := (qualifyLocalImport host g importpath s).1.2 in
  (is_Some rerr <-> is_Some err \/ length pkgs <> 1) /\
  (is_Some err -> rerr = err /\ path = "") /\
  (err = None -> length pkgs <> 1 ->
   path = "" /\
   exists w, rerr = Some w /\
             errors_Unwrap w = None /\
             Error w = "found " +:+ pretty (length pkgs) +:+
                       " local packages, expected 1") /\
  (forall p, err = None -> pkgs = [p] -> path = PkgPath p /\ rerr = None).
Proof.
  unfold qualifyLocalImport. fold (load_cfg g).
  destruct (packages_Load host (load_cfg g) importpath) as [pkgs [e|]]; simpl.
  - split; [split; eauto|]. split; [auto|].
    split; [discriminate|]. discriminate.
  - destruct (decide (length pkgs <> 1)) as [Hn|Hn]; simpl.
    + split; [split; eauto|]. split; [intros [? ?]; discriminate|].
      split.
      * intros _ _. split; [reflexivity|]. eexists. repeat split.
      * intros p _ ->. simpl in Hn. contradiction.
    + split.
      { split; [intros [? ?]; discriminate|].
        intros [[? ?]|?]; [discriminate | contradiction]. }
      split; [intros [? ?]; discriminate|].
      split; [intros _ ?; contradiction|].
      intros p _ ->. split; reflexivity.
Qed.

(** ** The properties at concrete inputs *)

Lemma moduleInfo_nil_nil_only_at_invocation_witness :
  is_Some (cmd_Output no_modules tt (list_cmd in_src_app)).2 /\
  moduleInfo no_modules in_src_app tt start = (None, None, start).
Proof.
  assert (H : is_Some (cmd_Output no_modules tt (list_cmd in_src_app)).2)
    by (exists exit_status_1; reflexivity).
  split; [exact H|].
  exact (proj1 (moduleInfo_nil_nil_only_at_invocation
                  no_modules in_src_app tt start) H).
Defined.

Lemma moduleInfo_no_main_module_witness :
  (moduleInfo (toolchain go_1_15 [decoded lib]) in_src_app tt start).1
  = (None, Some Errorf_no_main_module).
Proof.
  apply (moduleInfo_no_main_module (toolchain go_1_15 [decoded lib])
           in_src_app tt start "{...}" [lib]).
  - reflexivity.
  - reflexivity.
  - constructor; [reflexivity | constructor].
Defined.

Lemma moduleInfo_decode_error_fatal_witness :
  exists w,
    (moduleInfo (toolchain go_1_15
                   [decoded app; failed modInfo_zero (foreign "unexpected EOF")])
       in_src_app tt start).1 = (None, Some w) /\
    errors_Unwrap w = Some (foreign "unexpected EOF") /\
    Error w = "error reading module data unexpected EOF".
Proof.
  apply (moduleInfo_decode_error_fatal
           (toolchain go_1_15
              [decoded app; failed modInfo_zero (foreign "unexpected EOF")])
           in_src_app tt start "{...}" [app] modInfo_zero
           (foreign "unexpected EOF") []).
  - reflexivity.
  - reflexivity.
  - discriminate.
Defined.

Lemma moduleInfo_well_formed_witness :
  exists mods s',
    moduleInfo (toolchain go_1_15 [decoded app; decoded lib]) in_src_app tt start
    = (Some mods, None, s') /\
    (exists p r, main mods = Some p /\ deref s' p = Some r /\
                 r ∈ [app; lib] /\ Main r = true /\
                 is_Some (deps mods !! Path r)) /\
    (forall p, is_Some (deps mods !! p) <-> p ∈ Path <$> [app; lib]) /\
    (forall i r, [app; lib] !! i = Some r ->
                 later_all (fun r' => Path r' <> Path r) [app; lib] i ->
                 exists p, deps mods !! Path r = Some p /\ deref s' p = Some r) /\
    (NoDup (Path <$> [app; lib]) ->
       size (deps mods) = length [app; lib] /\
       forall r, r ∈ [app; lib] ->
                 exists p, deps mods !! Path r = Some p /\ deref s' p = Some r).
Proof.
  apply (moduleInfo_well_formed (toolchain go_1_15 [decoded app; decoded lib])
           in_src_app tt start "{...}" [app; lib]).
  - reflexivity.
  - reflexivity.
  - constructor. reflexivity.
Defined.

(** The two-module scenario, computed: the graph's main module is
    [example.com/app] and [example.com/lib] is a dependency that is not
    main. *)
Example moduleInfo_two_modules :
  moduleInfo (toolchain go_1_15 [decoded app; decoded lib]) in_src_app tt start
  = (Some {| main := Some 0;
             deps := <["example.com/lib" := 1]> (<["example.com/app" := 0]> ∅) |},
     None,
     {| gb_Default := usr_local_go; log_output := []; heap := [app; lib] |}).
Proof. reflexivity. Qed.

(** A listing with two records marked main is accepted: the graph is
    returned, its main module is the second one, and the statement that
    exactly one record is main fails. *)
Lemma two_main_records_accepted :
  ~ main_is_the_only_main_record
      (toolchain go_1_15 [decoded app; decoded tool; decoded lib])
      in_src_app tt start.
Proof.
  intros Hspec.
  destruct (Hspec
              {| main := Some 1;
                 deps := <["example.com/lib" := 2]>
                           (<["example.com/tool" := 1]>
                              (<["example.com/app" := 0]> ∅)) |}
              {| gb_Default := usr_local_go; log_output := [];
                 heap := [app; tool; lib] |}
              eq_refl) as [Hone _].
  vm_compute in Hone. discriminate Hone.
Qed.

(** When a later record repeats the path of the main module, the entry
    under that path is the later record and not [main]. *)
Example main_path_overwritten :
  let mods := {| main := Some 0;
                 deps := <["example.com/app" := 1]>
                           (<["example.com/app" := 0]> ∅) |} in
  let s' := {| gb_Default := usr_local_go; log_output := [];
               heap := [app; app_again] |} in
  moduleInfo (toolchain go_1_15 [decoded app; decoded app_again])
    in_src_app tt start = (Some mods, None, s') /\
  deps mods !! "example.com/app" = Some 1 /\
  deref s' 0 = Some app /\ deref s' 1 = Some app_again.
Proof. repeat split. Qed.

Lemma moduleInfo_main_is_last_main_witness :
  exists i r,
    [app; tool; lib] !! i = Some r /\ Main r = true /\
    later_all (fun r' => Main r' = false) [app; tool; lib] i /\
    main {| main := Some 1;
            deps := <["example.com/lib" := 2]>
                      (<["example.com/tool" := 1]>
                         (<["example.com/app" := 0]> ∅)) |}
      = Some (length (heap start) + i) /\
    deref {| gb_Default := usr_local_go; log_output := [];
             heap := [app; tool; lib] |} (length (heap start) + i) = Some r /\
    (later_all (fun r' => Path r' <> Path r) [app; tool; lib] i ->
     deps {| main := Some 1;
             deps := <["example.com/lib" := 2]>
                       (<["example.com/tool" := 1]>
                          (<["example.com/app" := 0]> ∅)) |} !! Path r = Some 1).
Proof.
  exact (proj1 (moduleInfo_main_is_last_main
                  (toolchain go_1_15 [decoded app; decoded tool; decoded lib])
                  in_src_app tt start _ _) eq_refl).
Defined.

Lemma newBuildContext_reconciles_root_witness :
  (getGoroot (toolchain go_1_15 []) tt "/src/app" start).1 = ("/opt/go1.15", None) /\
  exists g s',
    newBuildContext (toolchain go_1_15 []) tt "/src/app" start = (Some g, None, s') /\
    GOROOT (bc g) = "/opt/go1.15" /\
    log_output s' = [mismatch_entry "/usr/local/go" "/opt/go1.15"].
Proof.
  split; [reflexivity|].
  apply (proj1 (newBuildContext_reconciles_root (toolchain go_1_15 []) tt
                  "/src/app" start "/opt/go1.15" eq_refl)); discriminate.
Defined.

Lemma newBuildContext_probe_failure_witness :
  exists g s' entry,
    newBuildContext (toolchain ("", Some exit_status_1) []) tt "/src/app" start
    = (Some g, None, s') /\
    log_output s' = log_output start ++ [entry] /\
    entry = probe_error_entry "" (Some exit_status_1) /\
    bc g = set_Dir usr_local_go "/src/app" /\
    GOROOT (bc g) = "/usr/local/go".
Proof.
  apply (newBuildContext_probe_failure (toolchain ("", Some exit_status_1) [])
           tt "/src/app" start "" (Some exit_status_1)).
  - reflexivity.
  - left. exists exit_status_1. reflexivity.
Defined.

(** The probe answers with the root of the default: nothing is logged. *)
Example newBuildContext_same_root :
  newBuildContext no_modules tt "/src/app" start
  = (Some in_src_app, None, start).
Proof. reflexivity. Qed.

(** The probe answers with an empty line: one diagnostic, no override. *)
Example newBuildContext_empty_root :
  newBuildContext (toolchain (newline, None) []) tt "/src/app" start
  = (Some in_src_app, None, logged start probe_empty_entry).
Proof. reflexivity. Qed.

Lemma qualifyLocalImport_one_package_witness :
  (qualifyLocalImport (loader ([{| PkgPath := "example.com/app/foo" |}], None))
     in_src_app "./foo" start).1
  = ("example.com/app/foo", None).
Proof.
  destruct (qualifyLocalImport_one_package
              (loader ([{| PkgPath := "example.com/app/foo" |}], None))
              in_src_app "./foo" start) as (_ & _ & _ & Hone).
  destruct (Hone {| PkgPath := "example.com/app/foo" |} eq_refl eq_refl)
    as [Hpath Herr].
  destruct (qualifyLocalImport _ in_src_app "./foo" start) as [[path rerr] s'].
  simpl in *. now rewrite Hpath, Herr.
Defined.

Example qualifyLocalImport_no_package :
  (qualifyLocalImport (loader ([], None)) in_src_app "./foo" start).1
  = ("", Some (errorString "found 0 local packages, expected 1")).
Proof. reflexivity. Qed.

Example qualifyLocalImport_two_packages :
  (qualifyLocalImport
     (loader ([{| PkgPath := "example.com/app/foo" |};
               {| PkgPath := "example.com/app/foo_test" |}], None))
     in_src_app "./foo" start).1
  = ("", Some (errorString "found 2 local packages, expected 1")).
Proof. reflexivity. Qed.

Example qualifyLocalImport_loader_error :
  (qualifyLocalImport (loader ([], Some (foreign "go: cannot find main module")))
     in_src_app "./foo" start).1
  = ("", Some (foreign "go: cannot find main module")).
Proof. reflexivity. Qed.

(** * Further properties of the build context *)

(** ** Construction in closed form *)

Lemma logged_all_nil (s : Process) : logged_all s [] = s.
Proof. destruct s; unfold logged_all; simpl. now rewrite app_nil_r. Qed.

Lemma newBuildContext_closed (host : Host) (ctx : context_Context host)
    (dir : string) (s : Process) :
  let goroot := strings_TrimSpace host (cmd_Output host ctx (goroot_cmd dir)).1 in
  let err := (cmd_Output host ctx (goroot_cmd dir)).2 in
  newBuildContext host ctx dir s =
  (Some {| bc := set_GOROOT (set_Dir (gb_Default s) dir)
                   (reconciled_root (GOROOT (gb_Default s)) goroot err) |},
   None,
   logged_all s (construction_log (GOROOT (gb_Default s)) goroot err)).
Proof.
  intros goroot err.
  rewrite (newBuildContext_cases host ctx dir s goroot err)
    by (rewrite getGoroot_eq; reflexivity).
  unfold reconciled_root, construction_log.
  destruct err as [e|]; [reflexivity|].
  destruct (decide (goroot = "")); [reflexivity|].
  destruct (decide (GOROOT (gb_Default s) = goroot)) as [Heq|Hne]; [|reflexivity].
  rewrite logged_all_nil, <- Heq. reflexivity.
Qed.

Section MoreConstruction.

Variable host : Host.
Variable ctx : context_Context host.
Variable dir : string.

(** X1. The context [newBuildContext] returns is the default with [Dir]
    bound to the working directory and [GOROOT] set to the reconciled root:
    the trimmed output of [go env GOROOT] when the command succeeded with a
    non-empty answer, the default's root otherwise.  So the root of the new
    context is empty only if the default's root is. *)
Theorem newBuildContext_context (s : Process) :
  let goroot := strings_TrimSpace host (cmd_Output host ctx (goroot_cmd dir)).1 in
  let err := (cmd_Output host ctx (goroot_cmd dir)).2 in
  let root := reconciled_root (GOROOT (gb_Default s)) goroot err in
  (newBuildContext host ctx dir s).1 =
    (Some {| bc := set_GOROOT (set_Dir (gb_Default s) dir) root |}, None) /\
  (root = "" -> GOROOT (gb_Default s) = "").
Proof.
  intros goroot err root. split.
  - now rewrite newBuildContext_closed.
  - unfold root, reconciled_root. destruct err; [auto|].
    destruct (decide (goroot = "")); [auto | contradiction].
Qed.


(** X3. A construction is not affected by an earlier one: building a
    context for [dir] after a context was built for any other directory
    returns the same context and error as building it first. *)
Theorem newBuildContext_unaffected_by_earlier (s : Process)
    (ctx0 : context_Context host) (dir0 : string) :
  (newBuildContext host ctx dir (newBuildContext host ctx0 dir0 s).2).1 =
  (newBuildContext host ctx dir s).1.
Proof.
  rewrite (newBuildContext_closed host ctx0 dir0 s).
  now rewrite !newBuildContext_closed.
Qed.

(** X4. [importPackage] on a context built by [newBuildContext] asks
    [go/build] to import [path] from [srcDir] in mode [ImportComment] on the
    reconciled context, returns the package and the error as they come
    back, and leaves the process state as it was. *)
Theorem importPackage_on_new_context (s t : Process) (path srcDir : string) :
  let goroot := strings_TrimSpace host (cmd_Output host ctx (goroot_cmd dir)).1 in
  let err := (cmd_Output host ctx (goroot_cmd dir)).2 in
  let root := reconciled_root (GOROOT (gb_Default s)) goroot err in
  exists g s',
    newBuildContext host ctx dir s = (Some g, None, s') /\
    importPackage host g path srcDir t =
      (gb_Import host (set_GOROOT (set_Dir (gb_Default s) dir) root)
         path srcDir ImportComment, t).
Proof.
  intros goroot err root. rewrite newBuildContext_closed.
  eexists _, _. split; reflexivity.
Qed.

End MoreConstruction.

(** ** The module graph in closed form *)

Lemma decode_failure_None (dec : json_Decoder) :
  decode_failure dec = None ->
  decode_stop dec = [] \/
  exists partial rest, decode_stop dec = failed partial io_EOF :: rest.
Proof.
  unfold decode_failure.
  destruct (decode_stop_shape dec) as [->|(partial & e & rest & ->)]; [auto|].
  destruct e; simpl; try discriminate. eauto.
Qed.

Lemma decode_failure_Some (dec : json_Decoder) partial e :
  decode_failure dec = Some (partial, e) ->
  e <> io_EOF /\ exists rest, decode_stop dec = failed partial e :: rest.
Proof.
  unfold decode_failure.
  destruct (decode_stop_shape dec) as [->|(partial' & e' & rest & ->)];
    [discriminate|].
  destruct e'; simpl; try discriminate;
    intros [= <- <-]; (split; [discriminate | eauto]).
Qed.

Lemma moduleInfo_closed (host : Host) (g : goBuildContext)
    (ctx : context_Context host) (s : Process) output :
  cmd_Output host ctx (list_cmd g) = (output, None) ->
  let recs := decoded_records (json_NewDecoder host output) in
  moduleInfo host g ctx s =
  match decode_failure (json_NewDecoder host output) with
  | Some (partial, e) =>
      (None, Some (Errorf_reading_module_data e), alloc_all (recs ++ [partial]) s)
  | None =>
      (finish (record_all (length (heap s)) recs empty_modules), alloc_all recs s)
  end.
Proof.
  intros Hcmd recs. rewrite (moduleInfo_invoked host g ctx s output Hcmd).
  rewrite (decoder_split (json_NewDecoder host output)) at 1. fold recs.
  destruct (decode_failure (json_NewDecoder host output)) as [[partial e]|] eqn:Hf.
  - destruct (decode_failure_Some _ partial e Hf) as [He [rest ->]].
    now rewrite moduleInfo_loop_failed.
  - destruct (decode_failure_None _ Hf) as [->|(partial & rest & ->)].
    + rewrite app_nil_r. now rewrite moduleInfo_loop_eof.
    + now rewrite moduleInfo_loop_failed_eof.
Qed.

Lemma finish_record_all (recs : list modInfo) (base : ptr) :
  (Exists (fun r => Main r = true) recs /\
   is_Some (main (record_all base recs empty_modules)) /\
   finish (record_all base recs empty_modules) =
     (Some (record_all base recs empty_modules), None)) \/
  (Forall (fun r => Main r = false) recs /\
   finish (record_all base recs empty_modules) =
     (None, Some Errorf_no_main_module)).
Proof.
  unfold finish. destruct (no_main_or_some_main recs) as [Hnone|Hsome].
  - right. split; [exact Hnone|]. now rewrite record_all_main_none.
  - left. split; [exact Hsome|].
    destruct (last_main_exists recs Hsome) as (i & r & Hi & Hr & Hlater).
    rewrite (record_all_main_last recs base empty_modules i r Hi Hr Hlater).
    split; [eauto | reflexivity].
Qed.

Lemma not_both_main_and_none (recs : list modInfo) :
  Exists (fun r => Main r = true) recs ->
  Forall (fun r => Main r = false) recs -> False.
Proof.
  intros Hex Hall. apply Exists_exists in Hex as (r & Hr & Hmain).
  rewrite Forall_forall in Hall. specialize (Hall r Hr). congruence.
Qed.

Lemma moduleInfo_success_inv (host : Host) (g : goBuildContext)
    (ctx : context_Context host) (s : Process) mods s' :
  moduleInfo host g ctx s = (Some mods, None, s') ->
  let recs := decoded_records
                (json_NewDecoder host (cmd_Output host ctx (list_cmd g)).1) in
  mods = record_all (length (heap s)) recs empty_modules /\
  s' = alloc_all recs s.
Proof.
  intros Hok.
  destruct (cmd_Output host ctx (list_cmd g)) as [output [e|]] eqn:Hcmd.
  { rewrite (moduleInfo_invocation_failed host g ctx s output e Hcmd) in Hok.
    discriminate. }
  simpl. rewrite (moduleInfo_closed host g ctx s output Hcmd) in Hok.
  destruct (decode_failure (json_NewDecoder host output)) as [[partial e]|];
    [discriminate|].
  destruct (finish_record_all (decoded_records (json_NewDecoder host output))
              (length (heap s))) as [(_ & _ & Hfin)|[_ Hfin]];
    rewrite Hfin in Hok; [|discriminate].
  injection Hok as <- <-. split; reflexivity.
Qed.

Lemma record_all_deps_inv (l : list modInfo) base mods (k : string) (a : ptr) :
  deps (record_all base l mods) !! k = Some a ->
  deps mods !! k = Some a \/
  exists i r, l !! i = Some r /\ Path r = k /\ a = base + i.
Proof.
  revert base mods. induction l as [|x l IH]; intros base mods Hk; simpl in Hk.
  - now left.
  - destruct (IH (S base) (record_one base x mods) Hk)
      as [Hone|(i & r & Hi & Hp & ->)].
    + simpl in Hone. destruct (decide (Path x = k)) as [Heq|Hne].
      * rewrite Heq, lookup_insert_eq in Hone. injection Hone as <-.
        right. exists 0, x. repeat split; [exact Heq | lia].
      * rewrite lookup_insert_ne in Hone by exact Hne. now left.
    + right. exists (S i), r. repeat split; [exact Hi | exact Hp | lia].
Qed.

Lemma record_all_main_inv (l : list modInfo) base mods (a : ptr) :
  main (record_all base l mods) = Some a ->
  main mods = Some a \/
  exists i r, l !! i = Some r /\ Main r = true /\ a = base + i.
Proof.
  revert base mods. induction l as [|x l IH]; intros base mods Hm; simpl in Hm.
  - now left.
  - destruct (IH (S base) (record_one base x mods) Hm)
      as [Hone|(i & r & Hi & Hp & ->)].
    + simpl in Hone. destruct (Main x) eqn:Hx.
      * injection Hone as <-. right. exists 0, x.
        repeat split; [exact Hx | lia].
      * now left.
    + right. exists (S i), r. repeat split; [exact Hi | exact Hp | lia].
Qed.

Lemma size_paths_le (l : list string) :
  size (list_to_set l : gset string) <= length l /\
  (size (list_to_set l : gset string) = length l <-> NoDup l).
Proof.
  induction l as [|x l [IHle IHeq]].
  - rewrite list_to_set_nil, size_empty. simpl.
    split; [lia|]. split; [constructor | reflexivity].
  - rewrite list_to_set_cons. simpl length.
    destruct (decide (x ∈ l)) as [Hin|Hnot].
    + assert (Hsub : ({[x]} ∪ list_to_set l : gset string) = list_to_set l).
      { apply subseteq_union_1_L. apply singleton_subseteq_l.
        now apply elem_of_list_to_set. }
      rewrite Hsub. split; [lia|]. split; [lia|].
      intros Hnd. apply NoDup_cons in Hnd as [? _]. contradiction.
    + rewrite size_union
        by (apply disjoint_singleton_l; now rewrite elem_of_list_to_set).
      rewrite size_singleton. split; [lia|]. rewrite NoDup_cons. split.
      * intros Hs. split; [exact Hnot|]. apply IHeq. lia.
      * intros [_ Hnd]. apply IHeq in Hnd. lia.
Qed.

Lemma moduleInfo_loop_heap (dec : json_Decoder) (mods : modules) (s : Process) :
  exists new, heap (moduleInfo_loop dec mods s).2 = heap s ++ new.
Proof.
  revert mods s. induction dec as [|[v|partial e] rest IH]; intros mods s.
  - exists []. simpl. now rewrite app_nil_r.
  - rewrite moduleInfo_loop_step.
    destruct (IH (record_one (length (heap s)) v mods) (alloc_all [v] s))
      as [new Hnew].
    exists (v :: new). rewrite Hnew. simpl. now rewrite <- app_assoc.
  - simpl. destruct e; simpl;
      first [ exists []; simpl; now rewrite app_nil_r
            | exists [partial]; reflexivity ].
Qed.

Lemma moduleInfo_heap (host : Host) (g : goBuildContext)
    (ctx : context_Context host) (s : Process) :
  exists new, heap (moduleInfo host g ctx s).2 = heap s ++ new.
Proof.
  destruct (cmd_Output host ctx (list_cmd g)) as [output [e|]] eqn:Hcmd.
  - rewrite (moduleInfo_invocation_failed host g ctx s output e Hcmd).
    exists []. simpl. now rewrite app_nil_r.
  - rewrite (moduleInfo_invoked host g ctx s output Hcmd).
    destruct (moduleInfo_loop_heap (json_NewDecoder host output)
                empty_modules s) as [new Hnew].
    exists new. destruct (moduleInfo_loop _ _ s) as [[mods|e] s']; exact Hnew.
Qed.

Lemma heap_grows_deref (s s' : Process) (new : list modInfo) p r :
  heap s' = heap s ++ new -> deref s p = Some r -> deref s' p = Some r.
Proof.
  unfold deref. intros -> Hp. now apply lookup_app_l_Some.
Qed.

Section MoreModuleInfo.

Variable host : Host.
Variable g : goBuildContext.
Variable ctx : context_Context host.

(** X5. [moduleInfo] never returns a graph together with an error: its
    result is (nil, nil), or a nil graph with an error, or a graph with a nil
    error; and a graph it returns always has a non-nil [main]. *)
Theorem moduleInfo_graph_or_error (s : Process) :
  let r := (moduleInfo host g ctx s).1 in
  r = (None, None) \/
  (exists e, r = (None, Some e)) \/
  (exists mods, r = (Some mods, None) /\ is_Some (main mods)).
Proof.
  intros r. unfold r.
  destruct (cmd_Output host ctx (list_cmd g)) as [output [e|]] eqn:Hcmd.
  - left. now rewrite (moduleInfo_invocation_failed host g ctx s output e Hcmd).
  - right. rewrite (moduleInfo_closed host g ctx s output Hcmd).
    destruct (decode_failure (json_NewDecoder host output)) as [[partial e]|].
    + left. eauto.
    + destruct (finish_record_all (decoded_records (json_NewDecoder host output))
                  (length (heap s))) as [(_ & Hmain & ->)|[_ ->]]; simpl.
      * right. eauto.
      * left. eauto.
Qed.

(** X6. [moduleInfo] returns a graph exactly when [go list] succeeded, no
    decode failed before the end of the stream, and some decoded record is
    marked main. *)
Theorem moduleInfo_graph_iff (s : Process) :
  let dec := json_NewDecoder host (cmd_Output host ctx (list_cmd g)).1 in
  (exists mods, (moduleInfo host g ctx s).1 = (Some mods, None)) <->
  (cmd_Output host ctx (list_cmd g)).2 = None /\
  decode_failure dec = None /\
  Exists (fun r => Main r = true) (decoded_records dec).
Proof.
  destruct (cmd_Output host ctx (list_cmd g)) as [output [e|]] eqn:Hcmd; simpl.
  - rewrite (moduleInfo_invocation_failed host g ctx s output e Hcmd).
    split; [intros [? ?]; discriminate | intros [? _]; discriminate].
  - rewrite (moduleInfo_closed host g ctx s output Hcmd).
    destruct (decode_failure (json_NewDecoder host output)) as [[partial e]|].
    { split; [intros [? ?]; discriminate | intros (_ & ? & _); discriminate]. }
    destruct (finish_record_all (decoded_records (json_NewDecoder host output))
                (length (heap s))) as [(Hex & _ & ->)|[Hall ->]]; simpl.
    + split; [auto | eauto].
    + split; [intros [? ?]; discriminate|]. intros (_ & _ & Hex).
      destruct (not_both_main_and_none _ Hex Hall).
Qed.

(** X7. The error of [moduleInfo] tells the two failures apart, and a
    decode failure takes precedence: the error is the wrapped error of the
    decoder exactly when a decode failed, whether or not a main module had
    been decoded, and it is "couldn't find main module" exactly when the
    stream decoded to its end and no record was marked main. *)
Theorem moduleInfo_error_iff (s : Process) (err : error) :
  let dec := json_NewDecoder host (cmd_Output host ctx (list_cmd g)).1 in
  (moduleInfo host g ctx s).1 = (None, Some err) <->
  (cmd_Output host ctx (list_cmd g)).2 = None /\
  ((exists partial e, decode_failure dec = Some (partial, e) /\
                      err = Errorf_reading_module_data e) \/
   (decode_failure dec = None /\
    Forall (fun r => Main r = false) (decoded_records dec) /\
    err = Errorf_no_main_module)).
Proof.
  destruct (cmd_Output host ctx (list_cmd g)) as [output [e|]] eqn:Hcmd; simpl.
  - rewrite (moduleInfo_invocation_failed host g ctx s output e Hcmd).
    split; [discriminate | intros [? _]; discriminate].
  - rewrite (moduleInfo_closed host g ctx s output Hcmd).
    destruct (decode_failure (json_NewDecoder host output)) as [[partial e]|].
    { simpl. split.
      - intros [= <-]. split; [reflexivity|]. left. eauto.
      - intros [_ [(p' & e' & [= <- <-] & ->)|(? & _)]];
          [reflexivity | discriminate]. }
    destruct (finish_record_all (decoded_records (json_NewDecoder host output))
                (length (heap s))) as [(Hex & _ & ->)|[Hall ->]]; simpl.
    + split; [discriminate|].
      intros [_ [(? & ? & ? & _)|(_ & Hall & _)]]; [discriminate|].
      destruct (not_both_main_and_none _ Hex Hall).
    + split.
      * intros [= <-]. split; [reflexivity|]. right. auto.
      * intros [_ [(? & ? & ? & _)|(_ & _ & ->)]]; [discriminate | reflexivity].
Qed.

(** X8. Every pointer in a graph returned by [moduleInfo] is a cell
    allocated by that call and holds a decoded record: the record under a
    key of [deps] has that key as its path, and the record [main] points to
    is marked main. *)
Theorem moduleInfo_graph_cells (s : Process) mods s' :
  moduleInfo host g ctx s = (Some mods, None, s') ->
  let recs := decoded_records
                (json_NewDecoder host (cmd_Output host ctx (list_cmd g)).1) in
  (forall k a, deps mods !! k = Some a ->
     length (heap s) <= a < length (heap s') /\
     exists r, deref s' a = Some r /\ Path r = k /\ r ∈ recs) /\
  (forall a, main mods = Some a ->
     length (heap s) <= a < length (heap s') /\
     exists r, deref s' a = Some r /\ Main r = true /\ r ∈ recs).
Proof.
  intros Hok recs.
  destruct (moduleInfo_success_inv host g ctx s mods s' Hok) as [-> ->].
  fold recs.
  assert (Hcell : forall i r, recs !! i = Some r ->
            length (heap s) <= length (heap s) + i < length (heap (alloc_all recs s)) /\
            deref (alloc_all recs s) (length (heap s) + i) = Some r /\ r ∈ recs).
  { intros i r Hi. split; [|split].
    - simpl. rewrite length_app. apply lookup_lt_Some in Hi. lia.
    - exact (alloc_all_deref recs s i r Hi).
    - apply list_elem_of_lookup. eauto. }
  split.
  - intros k a Hk.
    destruct (record_all_deps_inv recs _ empty_modules k a Hk)
      as [Hempty|(i & r & Hi & Hp & ->)].
    { simpl in Hempty. rewrite lookup_empty in Hempty. discriminate. }
    destruct (Hcell i r Hi) as (Hb & Hd & Hin). eauto 6.
  - intros a Ha.
    destruct (record_all_main_inv recs _ empty_modules a Ha)
      as [Hempty|(i & r & Hi & Hm & ->)]; [discriminate|].
    destruct (Hcell i r Hi) as (Hb & Hd & Hin). eauto 6.
Qed.

(** X9. The dependency map of a returned graph has at most as many
    entries as records were decoded, and exactly as many if and only if the
    paths of the decoded records are pairwise distinct. *)
Theorem moduleInfo_deps_size (s : Process) mods s' :
  moduleInfo host g ctx s = (Some mods, None, s') ->
  let recs := decoded_records
                (json_NewDecoder host (cmd_Output host ctx (list_cmd g)).1) in
  size (deps mods) <= length recs /\
  (size (deps mods) = length recs <-> NoDup (Path <$> recs)).
Proof.
  intros Hok recs.
  destruct (moduleInfo_success_inv host g ctx s mods s' Hok) as [-> _].
  fold recs. rewrite <- size_dom, record_all_dom. simpl.
  rewrite dom_empty_L, union_empty_r_L.
  rewrite <- (length_fmap Path recs). apply size_paths_le.
Qed.

(** X10. [moduleInfo] only allocates: it logs nothing, and every record
    that was on the heap before the call is at the same address with the same
    contents after it.  [qualifyLocalImport] and [importPackage] leave the
    whole process state as it was. *)
Theorem methods_keep_the_process (s : Process) (importpath path srcDir : string) :
  log_output (moduleInfo host g ctx s).2 = log_output s /\
  (forall p r, deref s p = Some r ->
               deref (moduleInfo host g ctx s).2 p = Some r) /\
  (qualifyLocalImport host g importpath s).2 = s /\
  (importPackage host g path srcDir s).2 = s.
Proof.
  split; [exact (proj2 (moduleInfo_frame host g ctx s))|]. split.
  - intros p r Hp. destruct (moduleInfo_heap host g ctx s) as [new Hnew].
    exact (heap_grows_deref s _ new p r Hnew Hp).
  - split; [apply qualifyLocalImport_frame | apply importPackage_frame].
Qed.


End MoreModuleInfo.

(** X12. [moduleInfo] and [qualifyLocalImport] read nothing of the context
    but its working directory: on two contexts with the same [Dir] they
    return the same, whatever the other fields, [GOROOT] included. *)
Theorem methods_read_only_Dir (host : Host) (g1 g2 : goBuildContext)
    (ctx : context_Context host) (importpath : string) (s : Process) :
  ctxt_Dir (bc g1) = ctxt_Dir (bc g2) ->
  moduleInfo host g1 ctx s = moduleInfo host g2 ctx s /\
  qualifyLocalImport host g1 importpath s = qualifyLocalImport host g2 importpath s.
Proof.
  intros Hdir. unfold moduleInfo, qualifyLocalImport. now rewrite Hdir.
Qed.

(** ** The further properties at concrete inputs *)

Lemma moduleInfo_graph_cells_witness :
  (forall k a, deps (two_module_graph 0) !! k = Some a ->
     length (heap start) <= a < length (heap (after_calls 1)) /\
     exists r, deref (after_calls 1) a = Some r /\ Path r = k /\ r ∈ [app; lib]) /\
  (forall a, main (two_module_graph 0) = Some a ->
     length (heap start) <= a < length (heap (after_calls 1)) /\
     exists r, deref (after_calls 1) a = Some r /\ Main r = true /\ r ∈ [app; lib]).
Proof.
  exact (moduleInfo_graph_cells two_modules in_src_app tt start
           (two_module_graph 0) (after_calls 1) eq_refl).
Defined.

Lemma moduleInfo_deps_size_witness :
  size (deps (two_module_graph 0)) <= length [app; lib] /\
  (size (deps (two_module_graph 0)) = length [app; lib] <->
   NoDup (Path <$> [app; lib])).
Proof.
  exact (moduleInfo_deps_size two_modules in_src_app tt start
           (two_module_graph 0) (after_calls 1) eq_refl).
Defined.


Lemma methods_read_only_Dir_witness :
  moduleInfo two_modules in_src_app tt start
  = moduleInfo two_modules in_src_app_go_1_15 tt start /\
  qualifyLocalImport two_modules in_src_app "./foo" start
  = qualifyLocalImport two_modules in_src_app_go_1_15 "./foo" start.
Proof.
  exact (methods_read_only_Dir two_modules in_src_app in_src_app_go_1_15 tt
           "./foo" start eq_refl).
Defined.
